(** * Keychain: the wallet's signing mapping (src/wallet/keychain.py)

    A shallow embedding of [class Keychain(dict)] and of its three methods,
    [add_secret_exponents], [sign] and [signature_for_solution].

    The Keychain is a Python [dict] from public keys to private keys; it is
    modelled as a [gmap].  The methods are written in a small state and
    exception monad: the state is the dictionary [self] together with the
    chronological list of the calls the methods issue (to [self.sign] and to
    the imported helpers), the outcome is a returned value or a raised
    exception.  The list of calls is not data of the program: it is there to
    state in which order a method calls what.  A raised exception does not
    roll the state back, as in Python.

    The classes and helpers the module imports ([BLSPrivateKey],
    [BLSSignature], [src.util.condition_tools]) are parameters of the
    development. *)

From Stdlib Require Import ZArith String List.
From stdpp Require Import gmap strings list fin_maps pretty.

Open Scope Z_scope.

(** ** Exceptions and outcomes *)

(** A Python exception: its class and its message. *)
Inductive exception : Type :=
  | Raise (cls : string) (msg : string).

Definition ValueError (msg : string) : exception := Raise "ValueError" msg.

Inductive outcome (A : Type) : Type :=
  | Returned (a : A)
  | Raised (e : exception).

Arguments Returned {A} a.
Arguments Raised {A} e.

Module Keychain.

Section Methods.

(** ** The collaborators *)

(** [BLSPublicKey] is used as a dictionary key: hashable with equality. *)
Context {PublicKey : Type} `{Countable PublicKey}.
Context {BLSPrivateKey MessageHash BLSSignature : Type}.
Context {Solution Conditions ConditionsDict : Type}.

(** [BLSPrivateKey.from_secret_exponent], [.public_key()], [.sign(h)]. *)
Variable BLSPrivateKey_from_secret_exponent : Z -> BLSPrivateKey.
Variable BLSPrivateKey_public_key : BLSPrivateKey -> PublicKey.
Variable BLSPrivateKey_sign : BLSPrivateKey -> MessageHash -> BLSSignature.

(** The truth value of a [BLSPrivateKey] object, as [not x] tests it. *)
Variable BLSPrivateKey_bool : BLSPrivateKey -> bool.

(** [str(public_key)], as ["%s" % public_key] formats it. *)
Variable PublicKey_str : PublicKey -> string.

(** [BLSSignature.aggregate]. *)
Variable BLSSignature_aggregate : list BLSSignature -> BLSSignature.

(** The helpers of [src.util.condition_tools]; each one may raise. *)
Variable conditions_for_solution : Solution -> outcome Conditions.
Variable conditions_by_opcode : Conditions -> outcome ConditionsDict.

(** [BLSSignature.aggsig_pair]: the pair one obligation consists of. *)
Record aggsig_pair : Type := AggsigPair {
  public_key : PublicKey;
  message_hash : MessageHash
}.

Variable hash_key_pairs_for_conditions_dict :
  ConditionsDict -> outcome (list aggsig_pair).

(** ** State *)

(** The calls a method issues, recorded in program order. *)
Inductive call : Type :=
  | CallConditionsForSolution (solution : Solution)
  | CallConditionsByOpcode (conditions : Conditions)
  | CallHashKeyPairs (conditions_dict : ConditionsDict)
  | CallSign (pr : aggsig_pair)
  | CallAggregate (signatures : list BLSSignature).

Record state : Type := State {
  keychain : gmap PublicKey BLSPrivateKey;
  calls : list call
}.

(** ** The monad *)

Definition M (A : Type) : Type := state -> outcome A * state.

Definition ret {A : Type} (a : A) : M A := fun st => (Returned a, st).

Definition raise {A : Type} (e : exception) : M A :=
  fun st => (Raised e, st).

Definition bind {A B : Type} (m : M A) (k : A -> M B) : M B :=
  fun st =>
    match m st with
    | (Returned a, st') => k a st'
    | (Raised e, st') => (Raised e, st')
    end.

Local Notation "'let*' x ':=' m 'in' k" := (bind m (fun x => k))
  (at level 10, x name, m at level 100, k at level 200).

(** [self]: the dictionary. *)
Definition get_self : M (gmap PublicKey BLSPrivateKey) :=
  fun st => (Returned (keychain st), st).

(** [self[k] = v]. *)
Definition setitem (k : PublicKey) (v : BLSPrivateKey) : M unit :=
  fun st => (Returned tt, State (<[k := v]> (keychain st)) (calls st)).

(** Appends a call to the list of calls; the dictionary is untouched. *)
Definition record (c : call) : M unit :=
  fun st => (Returned tt, State (keychain st) (calls st ++ [c])).

(** A call to a collaborator: recorded, then its outcome. *)
Definition external {A : Type} (c : call) (r : outcome A) : M A :=
  let* _ := record c in
  match r with
  | Returned a => ret a
  | Raised e => raise e
  end.

(** ** The methods *)

(** [for _ in secret_exponents: ...] *)
Fixpoint add_secret_exponents (secret_exponents : list Z) : M unit :=
  match secret_exponents with
  | [] => ret tt
  | e :: rest =>
      let bls_private_key := BLSPrivateKey_from_secret_exponent e in
      let* _ :=
        setitem (BLSPrivateKey_public_key bls_private_key) bls_private_key in
      add_secret_exponents rest
  end.

Definition unknown_pubkey (pr : aggsig_pair) : exception :=
  ValueError ("unknown pubkey " +:+ PublicKey_str (public_key pr)).

(** [self.get(k)] is [None] for an absent key; [not x] holds for [None]
    and for a falsy object. *)
Definition sign (pr : aggsig_pair) : M BLSSignature :=
  let* _ := record (CallSign pr) in
  let* self := get_self in
  match self !! public_key pr with
  | None => raise (unknown_pubkey pr)
  | Some bls_private_key =>
      if negb (BLSPrivateKey_bool bls_private_key)
      then raise (unknown_pubkey pr)
      else ret (BLSPrivateKey_sign bls_private_key (message_hash pr))
  end.

(** The body of the [for] loop of [signature_for_solution], over the
    obligations left, with the list [signatures] built so far. *)
Fixpoint sign_each (pairs : list aggsig_pair)
    (signatures : list BLSSignature) : M (list BLSSignature) :=
  match pairs with
  | [] => ret signatures
  | pr :: rest =>
      let* signature := sign pr in
      sign_each rest (signatures ++ [signature])
  end.

Definition signature_for_solution (solution : Solution) : M BLSSignature :=
  let* conditions :=
    external (CallConditionsForSolution solution)
      (conditions_for_solution solution) in
  let* conditions_dict :=
    external (CallConditionsByOpcode conditions)
      (conditions_by_opcode conditions) in
  let* pairs :=
    external (CallHashKeyPairs conditions_dict)
      (hash_key_pairs_for_conditions_dict conditions_dict) in
  let* signatures := sign_each pairs [] in
  external (CallAggregate signatures)
    (Returned (BLSSignature_aggregate signatures)).

(** The signature of a pair under the private key the dictionary holds
    for its public key, if it holds one. *)
Definition signature_of (kc : gmap PublicKey BLSPrivateKey)
    (pr : aggsig_pair) : option BLSSignature :=
  (fun sk => BLSPrivateKey_sign sk (message_hash pr))
    <$> kc !! public_key pr.

(** Every [BLSPrivateKey] object is truthy, as the instances of a class
    that defines neither [__bool__] nor [__len__] are. *)
Definition private_keys_truthy : Prop :=
  forall sk, BLSPrivateKey_bool sk = true.

(** [Keychain()]: [__new__] is a class method, so it is entered with the
    class once more in front of the constructor's arguments, and hands
    exactly those to [dict.__new__], which allocates an empty dictionary of
    that class; with no further argument [dict.__init__] leaves it empty.
    No call has been issued yet. *)
Definition new : state := State ∅ [].

(** ** Sequences of method calls *)

Inductive operation : Type :=
  | OpAddSecretExponents (secret_exponents : list Z)
  | OpSign (pr : aggsig_pair)
  | OpSignatureForSolution (solution : Solution).

(** The state a method call leaves, whether it returns or raises. *)
Definition run_operation (op : operation) (st : state) : state :=
  match op with
  | OpAddSecretExponents secret_exponents =>
      snd (add_secret_exponents secret_exponents st)
  | OpSign pr => snd (sign pr st)
  | OpSignatureForSolution solution =>
      snd (signature_for_solution solution st)
  end.

Definition run_operations (ops : list operation) (st : state) : state :=
  foldl (fun st op => run_operation op st) st ops.

(** Every stored private key is stored under its own public key. *)
Definition key_consistent (kc : gmap PublicKey BLSPrivateKey) : Prop :=
  map_Forall (fun pk sk => BLSPrivateKey_public_key sk = pk) kc.

(** The dictionary [kc] after one [self[k] = v] per exponent, from left
    to right. *)
Definition stored (kc : gmap PublicKey BLSPrivateKey)
    (secret_exponents : list Z) : gmap PublicKey BLSPrivateKey :=
  foldl
    (fun kc e =>
       <[BLSPrivateKey_public_key (BLSPrivateKey_from_secret_exponent e)
         := BLSPrivateKey_from_secret_exponent e]> kc)
    kc secret_exponents.

(** The public keys of a sequence of secret exponents, in order. *)
Definition derived_public_keys (secret_exponents : list Z)
    : list PublicKey :=
  (fun e =>
     BLSPrivateKey_public_key (BLSPrivateKey_from_secret_exponent e))
    <$> secret_exponents.

End Methods.

Arguments aggsig_pair : clear implicits.
Arguments AggsigPair {PublicKey MessageHash} public_key message_hash.
Arguments call : clear implicits.
Arguments operation : clear implicits.
Arguments state PublicKey {_ _}
  BLSPrivateKey MessageHash BLSSignature Solution Conditions ConditionsDict.
Arguments new PublicKey {_ _}
  BLSPrivateKey MessageHash BLSSignature Solution Conditions ConditionsDict.
Arguments M PublicKey {_ _}
  BLSPrivateKey MessageHash BLSSignature Solution Conditions ConditionsDict A.

End Keychain.

Import Keychain.

(** ** The collaborators that are not among the sources *)

(** Modelled from the spec: [BLSSignature.aggregate] (src.types.hashable is
    not among the sources).  Section 4.3: "returns the scheme's
    group-combination of all inputs; returns the scheme's identity value
    when the input is empty".  [combine] is the scheme's group operation and
    [identity] its identity value. *)
Definition aggregate {BLSSignature : Type}
    (combine : BLSSignature -> BLSSignature -> BLSSignature)
    (identity : BLSSignature) (signatures : list BLSSignature)
    : BLSSignature :=
  match signatures with
  | [] => identity
  | s :: rest => foldl combine s rest
  end.

(** Modelled from the spec: the error of section 7, "the solution's output
    cannot be decoded into well-formed conditions". *)
Definition ConditionParseError : exception :=
  Raise "ConditionParseError" "malformed conditions".

(** Modelled from the spec: [conditions_for_solution]
    (src.util.condition_tools is not among the sources).  Section 4.2:
    "executes/decodes the solution's output program [...] Fails with
    ConditionParseError if the solution's output is malformed or cannot be
    decoded into a well-formed condition list".  [decode] is the decoder,
    [None] where the output cannot be decoded. *)
Definition decode_conditions_for_solution {Solution Conditions : Type}
    (decode : Solution -> option Conditions) (solution : Solution)
    : outcome Conditions :=
  match decode solution with
  | Some conditions => Returned conditions
  | None => Raised ConditionParseError
  end.

(** ** A small instance

    A discrete-logarithm scheme over the subgroup of order 11 of the units
    modulo 23, generated by 2: private keys are exponents, signatures are
    additive in the exponent.  Solutions are association lists of
    (public key, message hash), or [None] for an output that does not
    decode. *)

Module Toy.

Definition GROUP_ORDER : Z := 11.

Definition from_secret_exponent (secret_exponent : Z) : Z :=
  secret_exponent mod GROUP_ORDER.

Definition public_key_of (sk : Z) : Z := (2 ^ sk) mod 23.

Definition sign_hash (sk : Z) (h : Z) : Z := (sk * h) mod GROUP_ORDER.

Definition truth (sk : Z) : bool := true.

Definition str (pk : Z) : string := pretty pk.

Definition combine (a b : Z) : Z := (a + b) mod GROUP_ORDER.

Definition identity : Z := 0.

Definition decode (solution : option (list (Z * Z)))
    : option (list (Z * Z)) := solution.

Definition by_opcode (conditions : list (Z * Z))
    : outcome (list (Z * Z)) := Returned conditions.

Definition hash_key_pairs (conditions_dict : list (Z * Z))
    : outcome (list (aggsig_pair Z Z)) :=
  Returned ((fun c => AggsigPair (fst c) (snd c)) <$> conditions_dict).

Definition st : Type :=
  state Z Z Z Z (option (list (Z * Z))) (list (Z * Z)) (list (Z * Z)).

Definition run (A : Type) : Type :=
  M Z Z Z Z (option (list (Z * Z))) (list (Z * Z)) (list (Z * Z)) A.

Definition empty : st := State ∅ [].

Definition populate (secret_exponents : list Z) : run unit :=
  add_secret_exponents from_secret_exponent public_key_of secret_exponents.

Definition sign_pair (pr : aggsig_pair Z Z) : run Z :=
  sign sign_hash truth str pr.

Definition signature (solution : option (list (Z * Z))) : run Z :=
  signature_for_solution sign_hash truth str (aggregate combine identity)
    (decode_conditions_for_solution decode) by_opcode hash_key_pairs
    solution.

(** The Keychain holding the keys of the exponents 5 and 7: public keys 9
    and 13. *)
Definition two_keys : st := snd (populate [5; 7] empty).

(** The Keychain of the scenario with the single exponent 5. *)
Definition one_key : st := snd (populate [5] empty).

(** Solutions: two obligations on held keys, the same two in the other
    order, one obligation on a key that is not held, a single obligation,
    no obligation, and an output that does not decode. *)
Definition both : option (list (Z * Z)) := Some [(9, 4); (13, 6)].
Definition both_swapped : option (list (Z * Z)) := Some [(13, 6); (9, 4)].
Definition with_unknown : option (list (Z * Z)) := Some [(9, 4); (3, 6)].
Definition single : option (list (Z * Z)) := Some [(9, 4)].
Definition none : option (list (Z * Z)) := Some [].
Definition malformed : option (list (Z * Z)) := None.

End Toy.

(** * The node fixtures of the tests (tests/setup_nodes.py)

    The parts of the fixtures that compute on dictionaries, strings and
    generators.  The classes the fixtures instantiate (stores, servers,
    nodes) are not among the sources: what a fixture does with them before
    and after its [yield] is a parameter. *)

Module SetupNodes.

Import Stdlib.Strings.Ascii.

(** ** Values and dictionaries *)

Local Unset Elimination Schemes.

(** The values of the configuration and of the constants: [None], booleans,
    integers, strings, bytes, and dictionaries with string keys. *)
Inductive value : Type :=
  | VNone
  | VBool (b : bool)
  | VInt (z : Z)
  | VStr (s : string)
  | VBytes (b : list Byte.byte)
  | VDict (d : gmap string value).

Local Set Elimination Schemes.

Abbreviation dict := (gmap string value).

(** [KeyError(k)]; its message is the [repr] of the key. *)
Definition KeyError (k : string) : exception :=
  Raise "KeyError" ("'" +:+ k +:+ "'").

Definition type_name (v : value) : string :=
  match v with
  | VNone => "NoneType"
  | VBool _ => "bool"
  | VInt _ => "int"
  | VStr _ => "str"
  | VBytes _ => "bytes"
  | VDict _ => "dict"
  end.

(** The error of [v[k] = x] on a value that is not a dictionary. *)
Definition no_item_assignment (v : value) : exception :=
  Raise "TypeError"
    ("'" +:+ type_name v +:+ "' object does not support item assignment").

(** [d[k]]. *)
Definition getitem (d : dict) (k : string) : outcome value :=
  match d !! k with
  | Some v => Returned v
  | None => Raised (KeyError k)
  end.

(** ** The test constants *)

(** The dictionary literal of [test_constants]. *)
Definition test_constants_literal : dict :=
  list_to_map
    [("DIFFICULTY_STARTING", VInt 1);
     ("DISCRIMINANT_SIZE_BITS", VInt 16);
     ("BLOCK_TIME_TARGET", VInt 10);
     ("MIN_BLOCK_TIME", VInt 2);
     ("DIFFICULTY_EPOCH", VInt 12);
     ("DIFFICULTY_DELAY", VInt 3);
     ("PROPAGATION_THRESHOLD", VInt 10);
     ("PROPAGATION_DELAY_THRESHOLD", VInt 20);
     ("TX_PER_SEC", VInt 1);
     ("MEMPOOL_BLOCK_BUFFER", VInt 10);
     ("MIN_ITERS_STARTING", VInt (50 * 2))].

(** [bytes([0] * 32)] and [b"0"]. *)
Definition zero_challenge : list Byte.byte := replicate 32 Byte.x00.
Definition zero_seed : list Byte.byte := [Byte.x30].

(** [test_constants] once the module is loaded:
    [test_constants["GENESIS_BLOCK"] = bytes(bt.create_genesis_block(
    test_constants, bytes([0] * 32), b"0"))], with [create_genesis_block]
    standing for the call of [BlockTools] and the conversion to bytes. *)
Definition test_constants
    (create_genesis_block :
       dict -> list Byte.byte -> list Byte.byte -> list Byte.byte) : dict :=
  <["GENESIS_BLOCK" :=
      VBytes
        (create_genesis_block test_constants_literal zero_challenge
           zero_seed)]> test_constants_literal.

(** [for k in dic.keys(): test_constants_copy[k] = dic[k]], over the keys
    in the order in which [dic.keys()] gives them. *)
Fixpoint override_each (dic : dict) (keys : list string)
    (test_constants_copy : dict) : outcome dict :=
  match keys with
  | [] => Returned test_constants_copy
  | k :: rest =>
      match getitem dic k with
      | Returned v => override_each dic rest (<[k := v]> test_constants_copy)
      | Raised e => Raised e
      end
  end.

(** [test_constants_copy = test_constants.copy()] and the loop.  The copy
    is a dictionary of its own: the loop leaves [test_constants] alone. *)
Definition overridden_constants (constants dic : dict)
    (keys : list string) : outcome dict :=
  let test_constants_copy := constants in
  override_each dic keys test_constants_copy.

(** ** [bytes.hex()] *)

Definition hex_digit (n : N) : ascii :=
  match n with
  | 0 => "0" | 1 => "1" | 2 => "2" | 3 => "3"
  | 4 => "4" | 5 => "5" | 6 => "6" | 7 => "7"
  | 8 => "8" | 9 => "9" | 10 => "a" | 11 => "b"
  | 12 => "c" | 13 => "d" | 14 => "e" | _ => "f"
  end%N%char.

Definition hex_byte (b : Byte.byte) (rest : string) : string :=
  String (hex_digit (Byte.to_N b / 16))
    (String (hex_digit (Byte.to_N b mod 16)) rest).

(** Two lowercase digits per byte, the high half first. *)
Definition hex (bs : list Byte.byte) : string := foldr hex_byte "" bs.

(** The value of a hexadecimal digit, and the bytes that the longest
    prefix of whole pairs of lowercase digits spells: a left inverse of
    [hex], with which [hex] is shown to lose nothing. *)
Definition unhex_digit (a : ascii) : option N :=
  (if decide (a = "0") then Some 0 else if decide (a = "1") then Some 1
   else if decide (a = "2") then Some 2 else if decide (a = "3") then Some 3
   else if decide (a = "4") then Some 4 else if decide (a = "5") then Some 5
   else if decide (a = "6") then Some 6 else if decide (a = "7") then Some 7
   else if decide (a = "8") then Some 8 else if decide (a = "9") then Some 9
   else if decide (a = "a") then Some 10 else if decide (a = "b") then Some 11
   else if decide (a = "c") then Some 12 else if decide (a = "d") then Some 13
   else if decide (a = "e") then Some 14 else if decide (a = "f") then Some 15
   else None)%N%char.

Fixpoint unhex_prefix (s : string) : list Byte.byte :=
  match s with
  | String a (String b rest) =>
      match unhex_digit a, unhex_digit b with
      | Some h, Some l =>
          match Byte.of_N (16 * h + l) with
          | Some byte => byte :: unhex_prefix rest
          | None => []
          end
      | _, _ => []
      end
  | _ => []
  end.

(** ** The configuration of a wallet node *)

(** ["test-wallet-db" + token_bytes(32).hex() + ".db"], for the bytes
    [token] that [token_bytes(32)] returns. *)
Definition db_path (token : list Byte.byte) : string :=
  "test-wallet-db" +:+ hex token +:+ ".db".

(** The configuration [setup_wallet_node] hands to [WalletNode.create]:
    [if "starting_height" in dic: config["starting_height"] =
    dic["starting_height"]], and later [config["database_path"] =
    db_path]. *)
Definition wallet_config (config dic : dict) (token : list Byte.byte)
    : outcome dict :=
  match
    (if bool_decide (is_Some (dic !! "starting_height"))
     then
       match getitem dic "starting_height" with
       | Returned v => Returned (<["starting_height" := v]> config)
       | Raised e => Raised e
       end
     else Returned config)
  with
  | Returned config' =>
      Returned (<["database_path" := VStr (db_path token)]> config')
  | Raised e => Raised e
  end.

(** ** The configuration of a full node *)

(** [d[k][k'] = v]: the item [k] of [d] is looked up, and assigned into. *)
Definition setitem_in (d : dict) (k k' : string) (v : value)
    : outcome dict :=
  match getitem d k with
  | Returned (VDict inner) => Returned (<[k := VDict (<[k' := v]> inner)]> d)
  | Returned other => Raised (no_item_assignment other)
  | Raised e => Raised e
  end.

(** [if introducer_port is not None:
       config["introducer_peer"]["host"] = "127.0.0.1"
       config["introducer_peer"]["port"] = introducer_port]. *)
Definition full_node_config (config : dict) (introducer_port : value)
    : outcome dict :=
  match introducer_port with
  | VNone => Returned config
  | _ =>
      match setitem_in config "introducer_peer" "host" (VStr "127.0.0.1") with
      | Returned config' =>
          setitem_in config' "introducer_peer" "port" introducer_port
      | Raised e => Raised e
      end
  end.

(** ** Fixtures: asynchronous generators with one [yield] *)

Definition StopAsyncIteration : exception := Raise "StopAsyncIteration" "".

Definition is_StopAsyncIteration (e : exception) : bool :=
  match e with
  | Raise cls _ => bool_decide (cls = "StopAsyncIteration")
  end.

Definition is_StopIteration (e : exception) : bool :=
  match e with
  | Raise cls _ => bool_decide (cls = "StopIteration")
  end.

(** An asynchronous generator may not let [StopAsyncIteration] or
    [StopIteration] out of its body: either is turned into a
    [RuntimeError]. *)
Definition leaving_generator (e : exception) : exception :=
  if is_StopAsyncIteration e
  then Raise "RuntimeError" "async generator raised StopAsyncIteration"
  else if is_StopIteration e
  then Raise "RuntimeError" "async generator raised StopIteration"
  else e.

Section Fixtures.

(** The world the fixtures act on (databases, sockets, processes), and
    what a fixture yields (a node and its server). *)
Context {World Yielded : Type}.

(** The body of a fixture: what it does up to its [yield], with the value
    it yields, and what it does after it. *)
Record fixture : Type := Fixture {
  before_yield : World -> outcome Yielded * World;
  after_yield : World -> outcome unit * World
}.

(** The first part of a fixture returns, in whatever world it runs. *)
Definition sets_up (f : fixture) : Prop :=
  forall w, exists y, fst (before_yield f w) = Returned y.

(** The second part of a fixture returns, in whatever world it runs. *)
Definition tears_down (f : fixture) : Prop :=
  forall w, fst (after_yield f w) = Returned tt.

(** Where a generator object stands. *)
Inductive progress : Type :=
  | Created
  | Suspended
  | Finished.

(** [await node_iter.__anext__()] on the generator of [f] that stands at
    [p]: a created generator runs to its [yield] and returns what it
    yields; a suspended one runs to its end and raises
    [StopAsyncIteration]; a finished one raises [StopAsyncIteration]. *)
Definition anext (f : fixture) (p : progress) (w : World)
    : outcome Yielded * (progress * World) :=
  match p with
  | Created =>
      match before_yield f w with
      | (Returned y, w') => (Returned y, (Suspended, w'))
      | (Raised e, w') => (Raised (leaving_generator e), (Finished, w'))
      end
  | Suspended =>
      match after_yield f w with
      | (Returned _, w') => (Raised StopAsyncIteration, (Finished, w'))
      | (Raised e, w') => (Raised (leaving_generator e), (Finished, w'))
      end
  | Finished => (Raised StopAsyncIteration, (Finished, w))
  end.

(** The generator objects of [node_iters], each with where it stands. *)
Definition generators : Type := list (fixture * progress).

(** The generators of [fixtures] when each of them stands at [p]. *)
Definition standing (p : progress) (fixtures : list fixture) : generators :=
  (fun f => (f, p)) <$> fixtures.

(** [node_iters = [...]]: the generators are created, nothing runs. *)
Definition create (fixtures : list fixture) : generators :=
  standing Created fixtures.

(** The first part of a composed fixture:
    [x0 = await node_iters[0].__anext__()], then the same for 1, 2, ... in
    the order of the list.  [done] are the generators already advanced. *)
Fixpoint start_each (done todo : generators) (yields : list Yielded)
    (w : World) : outcome (list Yielded) * (generators * World) :=
  match todo with
  | [] => (Returned yields, (done, w))
  | (f, p) :: rest =>
      match anext f p w with
      | (Returned y, (p', w')) =>
          start_each (done ++ [(f, p')]) rest (yields ++ [y]) w'
      | (Raised e, (p', w')) => (Raised e, (done ++ (f, p') :: rest, w'))
      end
  end.

Definition start_all (node_iters : generators) (w : World)
    : outcome (list Yielded) * (generators * World) :=
  start_each [] node_iters [] w.

(** The second part of a composed fixture:
    [for node_iter in node_iters:
       try: await node_iter.__anext__()
       except StopAsyncIteration: pass]. *)
Fixpoint finish_each (done todo : generators) (w : World)
    : outcome unit * (generators * World) :=
  match todo with
  | [] => (Returned tt, (done, w))
  | (f, p) :: rest =>
      match anext f p w with
      | (Returned _, (p', w')) => finish_each (done ++ [(f, p')]) rest w'
      | (Raised e, (p', w')) =>
          if is_StopAsyncIteration e
          then finish_each (done ++ [(f, p')]) rest w'
          else (Raised e, (done ++ (f, p') :: rest, w'))
      end
  end.

Definition finish_all (node_iters : generators) (w : World)
    : outcome unit * (generators * World) :=
  finish_each [] node_iters w.

(** A composed fixture as a fixture of its own, over the world together
    with its generators.  Its body up to the [yield] creates the generators
    and starts them; its body after the [yield] is the loop. *)
Definition composed_before (fixtures : list fixture) (w : World)
    : outcome (list Yielded) * (generators * World) :=
  start_all (create fixtures) w.

(** The effect of the first parts alone, in the order of the list. *)
Definition world_after_setups (fixtures : list fixture) (w : World)
    : World :=
  foldl (fun w f => snd (before_yield f w)) w fixtures.

(** The effect of the second parts alone, in the order of the list. *)
Definition world_after_teardowns (fixtures : list fixture) (w : World)
    : World :=
  foldl (fun w f => snd (after_yield f w)) w fixtures.

End Fixtures.

Arguments fixture : clear implicits.
Arguments generators : clear implicits.

End SetupNodes.

(** ** Small fixtures

    The world is the list of what has been started and stopped so far; a
    fixture yields its port. *)

Module ToyNodes.

Import SetupNodes.

Definition node (name : string) (port : Z) : fixture (list string) Z :=
  Fixture
    (fun w => (Returned port, w ++ ["start " +:+ name]))
    (fun w => (Returned tt, w ++ ["stop " +:+ name])).

(** A fixture whose first part raises. *)
Definition fails_to_start (name : string) : fixture (list string) Z :=
  Fixture
    (fun w => (Raised (Raise "OSError" name), w))
    (fun w => (Returned tt, w ++ ["stop " +:+ name])).

(** A fixture whose second part raises. *)
Definition fails_to_stop (name : string) (port : Z)
    : fixture (list string) Z :=
  Fixture
    (fun w => (Returned port, w ++ ["start " +:+ name]))
    (fun w => (Raised (Raise "OSError" name), w)).

End ToyNodes.

(** * Properties of the methods *)

Section KeychainProperties.

Context {PublicKey : Type} `{Countable PublicKey}.
Context {BLSPrivateKey MessageHash BLSSignature : Type}.
Context {Solution Conditions ConditionsDict : Type}.

Variable BLSPrivateKey_from_secret_exponent : Z -> BLSPrivateKey.
Variable BLSPrivateKey_public_key : BLSPrivateKey -> PublicKey.
Variable BLSPrivateKey_sign : BLSPrivateKey -> MessageHash -> BLSSignature.
Variable BLSPrivateKey_bool : BLSPrivateKey -> bool.
Variable PublicKey_str : PublicKey -> string.
Variable BLSSignature_aggregate : list BLSSignature -> BLSSignature.
Variable conditions_for_solution : Solution -> outcome Conditions.
Variable conditions_by_opcode : Conditions -> outcome ConditionsDict.
Variable hash_key_pairs_for_conditions_dict :
  ConditionsDict -> outcome (list (aggsig_pair PublicKey MessageHash)).

Local Abbreviation state :=
  (state PublicKey BLSPrivateKey MessageHash BLSSignature
     Solution Conditions ConditionsDict).
Local Abbreviation add_secret_exponents :=
  (add_secret_exponents (MessageHash := MessageHash)
     (BLSSignature := BLSSignature) (Solution := Solution)
     (Conditions := Conditions) (ConditionsDict := ConditionsDict)
     BLSPrivateKey_from_secret_exponent BLSPrivateKey_public_key).
Local Abbreviation unknown_pubkey := (unknown_pubkey PublicKey_str).
Local Abbreviation sign :=
  (sign (Solution := Solution) (Conditions := Conditions)
     (ConditionsDict := ConditionsDict)
     BLSPrivateKey_sign BLSPrivateKey_bool PublicKey_str).
Local Abbreviation sign_each :=
  (sign_each (Solution := Solution) (Conditions := Conditions)
     (ConditionsDict := ConditionsDict)
     BLSPrivateKey_sign BLSPrivateKey_bool PublicKey_str).
Local Abbreviation signature_for_solution :=
  (signature_for_solution BLSPrivateKey_sign BLSPrivateKey_bool
     PublicKey_str BLSSignature_aggregate conditions_for_solution
     conditions_by_opcode hash_key_pairs_for_conditions_dict).
Local Abbreviation derived_public_keys :=
  (derived_public_keys BLSPrivateKey_from_secret_exponent
     BLSPrivateKey_public_key).
Local Abbreviation signature_of := (signature_of BLSPrivateKey_sign).
Local Abbreviation stored :=
  (stored BLSPrivateKey_from_secret_exponent BLSPrivateKey_public_key).
Local Abbreviation key_consistent :=
  (key_consistent BLSPrivateKey_public_key).
Local Abbreviation private_keys_truthy :=
  (private_keys_truthy BLSPrivateKey_bool).
Local Abbreviation run_operation :=
  (run_operation BLSPrivateKey_from_secret_exponent
     BLSPrivateKey_public_key BLSPrivateKey_sign BLSPrivateKey_bool
     PublicKey_str BLSSignature_aggregate conditions_for_solution
     conditions_by_opcode hash_key_pairs_for_conditions_dict).
Local Abbreviation run_operations :=
  (run_operations BLSPrivateKey_from_secret_exponent
     BLSPrivateKey_public_key BLSPrivateKey_sign BLSPrivateKey_bool
     PublicKey_str BLSSignature_aggregate conditions_for_solution
     conditions_by_opcode hash_key_pairs_for_conditions_dict).

Implicit Types (st : state) (pr : aggsig_pair PublicKey MessageHash).
Implicit Types (kc : gmap PublicKey BLSPrivateKey).

(** ** [sign] *)

(** What one call of [sign] does, by the entry of the dictionary. *)
Lemma sign_run st pr :
  sign pr st =
    (match keychain st !! public_key pr with
     | None => Raised (unknown_pubkey pr)
     | Some sk =>
         if BLSPrivateKey_bool sk
         then Returned (BLSPrivateKey_sign sk (message_hash pr))
         else Raised (unknown_pubkey pr)
     end,
     State (keychain st) (calls st ++ [CallSign pr])).
Proof.
  unfold Keychain.sign, bind, record, get_self, raise, ret; simpl.
  destruct (keychain st !! public_key pr) as [sk|]; [|reflexivity].
  destruct (BLSPrivateKey_bool sk); reflexivity.
Qed.

Lemma sign_keychain st pr : keychain (snd (sign pr st)) = keychain st.
Proof. rewrite sign_run. reflexivity. Qed.

(** ** The loop of [signature_for_solution] *)

Lemma external_run {A : Type} (c : call _ _ _ _ _ _) (r : outcome A) st :
  external c r st = (r, State (keychain st) (calls st ++ [c])).
Proof. unfold external, bind, record, ret, raise. destruct r; reflexivity. Qed.

Lemma sign_each_keychain pairs signatures st :
  keychain (snd (sign_each pairs signatures st)) = keychain st.
Proof.
  revert signatures st.
  induction pairs as [|pr rest IH]; intros signatures st; simpl; [done|].
  unfold bind. rewrite sign_run.
  destruct (keychain st !! public_key pr) as [sk|]; [|done].
  destruct (BLSPrivateKey_bool sk); [|done].
  rewrite IH. done.
Qed.

(** With every key present, the loop signs each pair with the stored key,
    in order, and appends the signatures in that order. *)
Lemma sign_each_present pairs new signatures st :
  private_keys_truthy ->
  Forall2 (fun pr s => signature_of (keychain st) pr = Some s) pairs new ->
  sign_each pairs signatures st =
    (Returned (signatures ++ new),
     State (keychain st) (calls st ++ (CallSign <$> pairs))).
Proof.
  intros Htruthy. revert new signatures st.
  induction pairs as [|pr rest IH]; intros new signatures st Hall.
  - apply Forall2_nil_inv_l in Hall as ->. simpl.
    rewrite !app_nil_r. by destruct st.
  - apply Forall2_cons_inv_l in Hall as (s & new' & Hs & Hrest & ->).
    unfold Keychain.signature_of in Hs.
    destruct (keychain st !! public_key pr) as [sk|] eqn:Hsk; [|done].
    injection Hs as <-.
    simpl. unfold bind. rewrite sign_run, Hsk, Htruthy.
    rewrite (IH new'); [|exact Hrest]. simpl.
    by rewrite <- !app_assoc.
Qed.

(** The loop stops at the first pair whose key is absent, with the error
    of that call of [sign]. *)
Lemma sign_each_absent pre pr post signatures st :
  private_keys_truthy ->
  Forall (fun q => is_Some (keychain st !! public_key q)) pre ->
  keychain st !! public_key pr = None ->
  sign_each (pre ++ pr :: post) signatures st =
    (Raised (unknown_pubkey pr),
     State (keychain st) (calls st ++ (CallSign <$> pre ++ [pr]))).
Proof.
  intros Htruthy. revert signatures st.
  induction pre as [|q pre IH]; intros signatures st Hpre Hpr; simpl.
  - unfold bind. by rewrite sign_run, Hpr.
  - apply Forall_cons in Hpre as [[sk Hsk] Hpre].
    unfold bind. rewrite sign_run, Hsk, Htruthy.
    rewrite IH; [|exact Hpre|exact Hpr]. simpl.
    by rewrite <- !app_assoc.
Qed.

(** A list with an absent key splits at the first such key. *)
Lemma first_absent kc (pairs : list (aggsig_pair PublicKey MessageHash)) :
  Exists (fun pr => kc !! public_key pr = None) pairs ->
  exists pre pr post,
    pairs = pre ++ pr :: post /\
    Forall (fun q => is_Some (kc !! public_key q)) pre /\
    kc !! public_key pr = None.
Proof.
  induction pairs as [|q rest IH]; intros Hex.
  - by apply Exists_nil in Hex.
  - destruct (kc !! public_key q) as [sk|] eqn:Hq.
    + apply Exists_cons in Hex as [Hq'|Hrest]; [congruence|].
      destruct (IH Hrest) as (pre & pr & post & -> & Hpre & Hpr).
      exists (q :: pre), pr, post. split; [done|]. split; [|done].
      apply Forall_cons. split; [by rewrite Hq|done].
    + exists [], q, rest. by repeat split.
Qed.

(** ** [signature_for_solution] *)

(** Once the three helpers have returned, the method runs the loop and
    aggregates what the loop returns. *)
Lemma signature_for_solution_run st solution conditions conditions_dict
    pairs :
  conditions_for_solution solution = Returned conditions ->
  conditions_by_opcode conditions = Returned conditions_dict ->
  hash_key_pairs_for_conditions_dict conditions_dict = Returned pairs ->
  signature_for_solution solution st =
    match
      sign_each pairs []
        (State (keychain st)
           (calls st ++
            [CallConditionsForSolution solution;
             CallConditionsByOpcode conditions;
             CallHashKeyPairs conditions_dict]))
    with
    | (Returned signatures, st') =>
        (Returned (BLSSignature_aggregate signatures),
         State (keychain st') (calls st' ++ [CallAggregate signatures]))
    | (Raised e, st') => (Raised e, st')
    end.
Proof.
  intros Hc Hd Hp.
  unfold Keychain.signature_for_solution, bind.
  rewrite !external_run, Hc. simpl.
  rewrite !external_run, Hd. simpl.
  rewrite !external_run, Hp. simpl.
  rewrite <- !app_assoc. simpl.
  destruct (sign_each pairs [] _) as [[signatures|e] st']; [|done].
  by rewrite external_run.
Qed.

Lemma signature_for_solution_keychain st solution :
  keychain (snd (signature_for_solution solution st)) = keychain st.
Proof.
  unfold Keychain.signature_for_solution, bind.
  rewrite external_run.
  destruct (conditions_for_solution solution) as [c|e]; [|done].
  rewrite external_run.
  destruct (conditions_by_opcode c) as [d|e]; [|done].
  rewrite external_run.
  destruct (hash_key_pairs_for_conditions_dict d) as [pairs|e]; [|done].
  match goal with
  | |- context [Keychain.sign_each ?a ?b ?c ?l ?sg ?s] =>
      pose proof (sign_each_keychain l sg s) as Hk;
      destruct (Keychain.sign_each a b c l sg s) as [[sigs|e] st']
  end; simpl in Hk; [|exact Hk].
  rewrite external_run. exact Hk.
Qed.

Lemma present_keys kc (pairs : list (aggsig_pair PublicKey MessageHash)) :
  Forall (fun pr => is_Some (kc !! public_key pr)) pairs ->
  exists signatures,
    Forall2 (fun pr s => signature_of kc pr = Some s) pairs signatures.
Proof.
  induction 1 as [|pr rest [sk Hsk] _ [signatures IH]].
  - exists []. constructor.
  - exists (BLSPrivateKey_sign sk (message_hash pr) :: signatures).
    constructor; [|done]. unfold Keychain.signature_of. by rewrite Hsk.
Qed.

(** With every key present, the method returns the aggregate of the
    signatures of the pairs, taken in the order of the pairs. *)
Lemma signature_for_solution_present st solution conditions
    conditions_dict pairs signatures :
  private_keys_truthy ->
  conditions_for_solution solution = Returned conditions ->
  conditions_by_opcode conditions = Returned conditions_dict ->
  hash_key_pairs_for_conditions_dict conditions_dict = Returned pairs ->
  Forall2 (fun pr s => signature_of (keychain st) pr = Some s)
    pairs signatures ->
  signature_for_solution solution st =
    (Returned (BLSSignature_aggregate signatures),
     State (keychain st)
       (calls st ++
        [CallConditionsForSolution solution;
         CallConditionsByOpcode conditions;
         CallHashKeyPairs conditions_dict] ++
        (CallSign <$> pairs) ++ [CallAggregate signatures])).
Proof.
  intros Htruthy Hc Hd Hp Hall.
  rewrite (signature_for_solution_run _ _ _ _ _ Hc Hd Hp).
  rewrite (sign_each_present _ signatures) by done. simpl.
  by rewrite <- !app_assoc.
Qed.

(** An exception of [conditions_for_solution] leaves the method at once. *)
Lemma signature_for_solution_raises_first st solution e :
  conditions_for_solution solution = Raised e ->
  signature_for_solution solution st =
    (Raised e,
     State (keychain st) (calls st ++ [CallConditionsForSolution solution])).
Proof.
  intros He. unfold Keychain.signature_for_solution, bind.
  by rewrite external_run, He.
Qed.

(** ** [add_secret_exponents] *)

Lemma add_secret_exponents_run secret_exponents st :
  add_secret_exponents secret_exponents st =
    (Returned tt, State (stored (keychain st) secret_exponents) (calls st)).
Proof.
  revert st. induction secret_exponents as [|e rest IH]; intros st; simpl.
  - by destruct st.
  - unfold bind, setitem. by rewrite IH.
Qed.

Lemma stored_cons kc e rest :
  stored kc (e :: rest) =
    stored
      (<[BLSPrivateKey_public_key (BLSPrivateKey_from_secret_exponent e)
         := BLSPrivateKey_from_secret_exponent e]> kc) rest.
Proof. reflexivity. Qed.

Lemma stored_app kc before after :
  stored kc (before ++ after) = stored (stored kc before) after.
Proof. apply foldl_app. Qed.

Lemma stored_lookup_other kc secret_exponents k :
  k ∉ derived_public_keys secret_exponents ->
  stored kc secret_exponents !! k = kc !! k.
Proof.
  revert kc. induction secret_exponents as [|e rest IH]; intros kc Hk.
  - done.
  - apply not_elem_of_cons in Hk as [Hne Hrest].
    rewrite stored_cons, IH by done.
    by rewrite lookup_insert_ne.
Qed.

Lemma stored_lookup_last kc before e after :
  BLSPrivateKey_public_key (BLSPrivateKey_from_secret_exponent e)
    ∉ derived_public_keys after ->
  stored kc (before ++ e :: after)
    !! BLSPrivateKey_public_key (BLSPrivateKey_from_secret_exponent e)
  = Some (BLSPrivateKey_from_secret_exponent e).
Proof.
  intros Hafter.
  rewrite stored_app, stored_cons, stored_lookup_other by done.
  apply lookup_insert_eq.
Qed.

Lemma stored_dom kc secret_exponents :
  dom (stored kc secret_exponents) =
    dom kc ∪ list_to_set (derived_public_keys secret_exponents).
Proof.
  revert kc. induction secret_exponents as [|e rest IH]; intros kc.
  - simpl. by rewrite (right_id_L ∅ (∪)).
  - rewrite stored_cons, IH, dom_insert_L. simpl.
    rewrite (comm_L (∪) {[_]} (dom kc)). by rewrite (assoc_L (∪)).
Qed.

Lemma stored_size secret_exponents :
  size (stored ∅ secret_exponents) =
    length (remove_dups (derived_public_keys secret_exponents)).
Proof.
  rewrite <- size_dom, stored_dom, dom_empty_L, (left_id_L ∅ (∪)).
  rewrite <- (size_list_to_set (C := gset PublicKey))
    by apply NoDup_remove_dups.
  f_equal. apply set_eq. intros k.
  by rewrite !elem_of_list_to_set, elem_of_remove_dups.
Qed.

Lemma stored_key_consistent kc secret_exponents :
  key_consistent kc -> key_consistent (stored kc secret_exponents).
Proof.
  revert kc. induction secret_exponents as [|e rest IH]; intros kc Hkc.
  - done.
  - rewrite stored_cons. apply IH. by apply map_Forall_insert_2.
Qed.

(** ** The claims about the code as it stands *)

(** C1: when one of the obligations derived for the solution names a
    public key that the Keychain does not hold, [signature_for_solution]
    raises the very exception that the failing call of [sign] raises (the
    call for the first such obligation); [BLSSignature.aggregate] is never
    called, so no aggregate is returned; and the dictionary is the same
    afterwards. *)
Theorem signature_for_solution_unknown_key st solution conditions
    conditions_dict pairs :
  private_keys_truthy ->
  conditions_for_solution solution = Returned conditions ->
  conditions_by_opcode conditions = Returned conditions_dict ->
  hash_key_pairs_for_conditions_dict conditions_dict = Returned pairs ->
  Exists (fun pr => keychain st !! public_key pr = None) pairs ->
  exists pre pr post,
    pairs = pre ++ pr :: post /\
    Forall (fun q => is_Some (keychain st !! public_key q)) pre /\
    keychain st !! public_key pr = None /\
    fst (sign pr st) = Raised (unknown_pubkey pr) /\
    fst (signature_for_solution solution st) = Raised (unknown_pubkey pr) /\
    keychain (snd (signature_for_solution solution st)) = keychain st /\
    calls (snd (signature_for_solution solution st)) =
      calls st ++
      [CallConditionsForSolution solution;
       CallConditionsByOpcode conditions;
       CallHashKeyPairs conditions_dict] ++
      (CallSign <$> pre ++ [pr]).
Proof.
  intros Htruthy Hc Hd Hp Hex.
  destruct (first_absent _ _ Hex) as (pre & pr & post & -> & Hpre & Hpr).
  exists pre, pr, post.
  rewrite (signature_for_solution_run _ _ _ _ _ Hc Hd Hp).
  rewrite sign_each_absent by done.
  rewrite sign_run, Hpr. simpl.
  repeat split; try done.
  by rewrite <- app_assoc.
Qed.

(** C2: [sign] on a public key that the Keychain does not hold raises
    [ValueError("unknown pubkey <key>")] and leaves the dictionary as it
    was; on a key it holds, it returns the signature of the message hash
    under the stored private key; and its outcome is a function of the
    dictionary and the pair alone. *)
Theorem sign_unknown_or_signature st pr :
  private_keys_truthy ->
  (keychain st !! public_key pr = None ->
   fst (sign pr st) =
     Raised (ValueError ("unknown pubkey " +:+ PublicKey_str (public_key pr)))
   /\ keychain (snd (sign pr st)) = keychain st) /\
  (forall sk,
     keychain st !! public_key pr = Some sk ->
     fst (sign pr st) = Returned (BLSPrivateKey_sign sk (message_hash pr))) /\
  (forall st',
     keychain st' = keychain st -> fst (sign pr st') = fst (sign pr st)).
Proof.
  intros Htruthy. split; [|split].
  - intros Hpr. by rewrite sign_run, Hpr.
  - intros sk Hsk. by rewrite sign_run, Hsk, Htruthy.
  - intros st' Hst'. by rewrite !sign_run, Hst'.
Qed.

(** C3: when the Keychain holds the public key of every obligation derived
    for the solution, [signature_for_solution] calls [sign] once per
    obligation in the order of the derived list, hands the signatures in
    that same order to [BLSSignature.aggregate], and returns what that
    call returns. *)
Theorem signature_for_solution_in_order st solution conditions
    conditions_dict pairs :
  private_keys_truthy ->
  conditions_for_solution solution = Returned conditions ->
  conditions_by_opcode conditions = Returned conditions_dict ->
  hash_key_pairs_for_conditions_dict conditions_dict = Returned pairs ->
  Forall (fun pr => is_Some (keychain st !! public_key pr)) pairs ->
  exists signatures,
    Forall2 (fun pr s => signature_of (keychain st) pr = Some s)
      pairs signatures /\
    signature_for_solution solution st =
      (Returned (BLSSignature_aggregate signatures),
       State (keychain st)
         (calls st ++
          [CallConditionsForSolution solution;
           CallConditionsByOpcode conditions;
           CallHashKeyPairs conditions_dict] ++
          (CallSign <$> pairs) ++ [CallAggregate signatures])).
Proof.
  intros Htruthy Hc Hd Hp Hall.
  destruct (present_keys _ _ Hall) as [signatures Hsigs].
  exists signatures. split; [exact Hsigs|].
  by apply signature_for_solution_present.
Qed.

(** C4: [add_secret_exponents] returns after storing, for each exponent,
    its private key under the public key derived from it.  The last
    exponent with a given public key is the one whose private key stays
    stored; keys that no exponent derives keep their entry; the keys of
    the dictionary are the former keys and the derived ones; from the
    empty dictionary there is one entry per distinct derived public key;
    and no key has two values. *)
Theorem add_secret_exponents_last_write_wins st secret_exponents :
  let kc' := keychain (snd (add_secret_exponents secret_exponents st)) in
  fst (add_secret_exponents secret_exponents st) = Returned tt /\
  (forall before e after,
     secret_exponents = before ++ e :: after ->
     BLSPrivateKey_public_key (BLSPrivateKey_from_secret_exponent e)
       ∉ derived_public_keys after ->
     kc' !! BLSPrivateKey_public_key (BLSPrivateKey_from_secret_exponent e)
     = Some (BLSPrivateKey_from_secret_exponent e)) /\
  (forall k,
     k ∉ derived_public_keys secret_exponents ->
     kc' !! k = keychain st !! k) /\
  dom kc' =
    dom (keychain st) ∪ list_to_set (derived_public_keys secret_exponents) /\
  (keychain st = ∅ ->
   size kc' = length (remove_dups (derived_public_keys secret_exponents))) /\
  (forall k sk1 sk2, kc' !! k = Some sk1 -> kc' !! k = Some sk2 -> sk1 = sk2).
Proof.
  rewrite add_secret_exponents_run. simpl. repeat split.
  - intros before e after -> Hafter. by apply stored_lookup_last.
  - intros k Hk. by apply stored_lookup_other.
  - apply stored_dom.
  - intros ->. apply stored_size.
  - congruence.
Qed.

(** C9: [sign] and [signature_for_solution] leave the dictionary as it
    was, whether they return or raise; [add_secret_exponents] is the
    method that changes it. *)
Theorem only_add_secret_exponents_writes :
  (forall st pr, keychain (snd (sign pr st)) = keychain st) /\
  (forall st solution,
     keychain (snd (signature_for_solution solution st)) = keychain st) /\
  (forall cs e,
     keychain (snd (add_secret_exponents [e] (State ∅ cs))) ≠ ∅).
Proof.
  split; [|split].
  - intros st pr. apply sign_keychain.
  - intros st solution. apply signature_for_solution_keychain.
  - intros cs e. rewrite add_secret_exponents_run. simpl.
    apply insert_non_empty.
Qed.

Lemma run_operation_key_consistent op st :
  key_consistent (keychain st) ->
  key_consistent (keychain (run_operation op st)).
Proof.
  intros Hst. destruct op as [secret_exponents|pr|solution]; simpl.
  - rewrite add_secret_exponents_run. simpl.
    by apply stored_key_consistent.
  - by rewrite sign_keychain.
  - by rewrite signature_for_solution_keychain.
Qed.

(** C10: after any sequence of method calls on a Keychain that starts
    empty, every private key is stored under the public key derived from
    it; and each method keeps that so. *)
Theorem keychain_key_consistent :
  (forall ops cs,
     key_consistent (keychain (run_operations ops (State ∅ cs)))) /\
  (forall op st,
     key_consistent (keychain st) ->
     key_consistent (keychain (run_operation op st))).
Proof.
  split; [|apply run_operation_key_consistent].
  intros ops cs.
  assert (Hinv : forall st,
    key_consistent (keychain st) ->
    key_consistent (keychain (run_operations ops st))).
  { induction ops as [|op ops IH]; intros st Hst; simpl; [done|].
    apply IH. by apply run_operation_key_consistent. }
  apply Hinv. simpl. apply map_Forall_empty.
Qed.

(** ** Further properties of the methods *)

Lemma run_operations_key_consistent ops st :
  key_consistent (keychain st) ->
  key_consistent (keychain (run_operations ops st)).
Proof.
  revert st. induction ops as [|op ops IH]; intros st Hst; simpl; [done|].
  apply IH. by apply run_operation_key_consistent.
Qed.

(** The entry of a derived public key after the loop is the private key of
    one of the exponents that derive it. *)
Lemma stored_lookup_derived kc secret_exponents k :
  k ∈ derived_public_keys secret_exponents ->
  exists e,
    e ∈ secret_exponents /\
    BLSPrivateKey_public_key (BLSPrivateKey_from_secret_exponent e) = k /\
    stored kc secret_exponents !! k
    = Some (BLSPrivateKey_from_secret_exponent e).
Proof.
  revert kc. induction secret_exponents as [|e0 rest IH]; intros kc Hk.
  - by apply elem_of_nil in Hk.
  - rewrite stored_cons.
    destruct (decide (k ∈ derived_public_keys rest)) as [Hrest|Hrest].
    + edestruct IH as (e & He & Hpk & Hlook); [exact Hrest|].
      exists e. split; [by apply elem_of_cons; right|]. split; [done|].
      exact Hlook.
    + apply elem_of_cons in Hk as [->|Hk]; [|done].
      exists e0. split; [by apply elem_of_cons; left|]. split; [done|].
      rewrite stored_lookup_other by done. apply lookup_insert_eq.
Qed.

(** The entry of a derived public key after the loop does not depend on
    the dictionary the loop starts from. *)
Lemma stored_lookup_derived_any kc kc' secret_exponents k :
  k ∈ derived_public_keys secret_exponents ->
  stored kc secret_exponents !! k = stored kc' secret_exponents !! k.
Proof.
  revert kc kc'.
  induction secret_exponents as [|e0 rest IH]; intros kc kc' Hk.
  - by apply elem_of_nil in Hk.
  - rewrite !stored_cons.
    destruct (decide (k ∈ derived_public_keys rest)) as [Hrest|Hrest].
    + by apply IH.
    + apply elem_of_cons in Hk as [->|Hk]; [|done].
      rewrite !stored_lookup_other by done.
      by rewrite !lookup_insert_eq.
Qed.

Lemma stored_permutation kc l l' :
  NoDup (derived_public_keys l) ->
  l ≡ₚ l' ->
  stored kc l = stored kc l'.
Proof.
  intros Hnodup Hperm. revert kc Hnodup.
  induction Hperm as [|e l l' Hperm IH|e1 e2 l|l l' l'' Hperm IH Hperm' IH'];
    intros kc Hnodup.
  - done.
  - rewrite !stored_cons. apply IH.
    by apply NoDup_cons in Hnodup as [_ Hnodup].
  - rewrite !stored_cons. f_equal.
    apply NoDup_cons in Hnodup as [Hne _].
    apply not_elem_of_cons in Hne as [Hne _].
    by apply insert_insert_ne.
  - rewrite IH by done. apply IH'.
    assert (Hderived : derived_public_keys l ≡ₚ derived_public_keys l')
      by (by apply fmap_Permutation).
    by rewrite <- Hderived.
Qed.




(** X1: adding exponents in two batches is adding them all at once: the
    second call goes on from the dictionary the first one left. *)
Theorem add_secret_exponents_in_batches st first second :
  add_secret_exponents (first ++ second) st =
    add_secret_exponents second (snd (add_secret_exponents first st)).
Proof. rewrite !add_secret_exponents_run. simpl. by rewrite stored_app. Qed.

(** X2: adding the same exponents a second time changes nothing. *)
Theorem add_secret_exponents_twice st secret_exponents :
  add_secret_exponents secret_exponents
    (snd (add_secret_exponents secret_exponents st)) =
  add_secret_exponents secret_exponents st.
Proof.
  rewrite !add_secret_exponents_run. simpl. do 2 f_equal.
  apply map_eq. intros k.
  destruct (decide (k ∈ derived_public_keys secret_exponents)) as [Hk|Hk].
  - by apply stored_lookup_derived_any.
  - by rewrite stored_lookup_other.
Qed.

(** X3: when the exponents derive pairwise different public keys, the
    order in which they are added does not matter. *)
Theorem add_secret_exponents_any_order st secret_exponents reordered :
  NoDup (derived_public_keys secret_exponents) ->
  secret_exponents ≡ₚ reordered ->
  add_secret_exponents reordered st =
    add_secret_exponents secret_exponents st.
Proof.
  intros Hnodup Hperm. rewrite !add_secret_exponents_run.
  by rewrite (stored_permutation _ _ _ Hnodup Hperm).
Qed.

(** X4: after [add_secret_exponents], [sign] returns for the public key of
    every exponent that was added, and the signature is the one of the
    private key of an added exponent with that public key. *)
Theorem sign_after_add_secret_exponents st secret_exponents e h :
  private_keys_truthy ->
  e ∈ secret_exponents ->
  let pk := BLSPrivateKey_public_key (BLSPrivateKey_from_secret_exponent e) in
  exists e',
    e' ∈ secret_exponents /\
    BLSPrivateKey_public_key (BLSPrivateKey_from_secret_exponent e') = pk /\
    fst (sign (AggsigPair pk h)
           (snd (add_secret_exponents secret_exponents st))) =
      Returned
        (BLSPrivateKey_sign (BLSPrivateKey_from_secret_exponent e') h).
Proof.
  intros Htruthy He pk.
  destruct (stored_lookup_derived (keychain st) secret_exponents pk)
    as (e' & He' & Hpk & Hlook).
  { unfold Keychain.derived_public_keys.
    apply list_elem_of_fmap. by exists e. }
  exists e'. split; [done|]. split; [done|].
  rewrite add_secret_exponents_run, sign_run. simpl.
  by rewrite Hlook, Htruthy.
Qed.

(** X5: on a Keychain that was created empty and has since been used
    through its methods only, a signature that [sign] returns was made with
    a private key whose own public key is the one that was asked for. *)
Theorem sign_under_matching_key ops pr s :
  fst (sign pr
         (run_operations ops
            (new PublicKey BLSPrivateKey MessageHash BLSSignature
               Solution Conditions ConditionsDict))) = Returned s ->
  exists sk,
    BLSPrivateKey_public_key sk = public_key pr /\
    s = BLSPrivateKey_sign sk (message_hash pr).
Proof.
  rewrite sign_run. simpl.
  match goal with
  | |- context [keychain ?st !! _] =>
      assert (Hinv : key_consistent (keychain st))
        by (apply run_operations_key_consistent, map_Forall_empty);
      destruct (keychain st !! public_key pr) as [sk|] eqn:Hsk
  end; [|discriminate].
  destruct (BLSPrivateKey_bool sk); [|discriminate].
  intros [= <-]. exists sk. split; [|done].
  exact (Hinv _ _ Hsk).
Qed.


(** X7: [sign] returns a signature exactly when the dictionary holds, for
    the public key of the pair, an object that is truthy; a stored object
    that is falsy is reported as an unknown public key. *)
Theorem sign_returns_iff st pr :
  (forall s,
     fst (sign pr st) = Returned s <->
     exists sk,
       keychain st !! public_key pr = Some sk /\
       BLSPrivateKey_bool sk = true /\
       s = BLSPrivateKey_sign sk (message_hash pr)) /\
  (forall sk,
     keychain st !! public_key pr = Some sk ->
     BLSPrivateKey_bool sk = false ->
     fst (sign pr st) = Raised (unknown_pubkey pr)).
Proof.
  rewrite sign_run. simpl. split.
  - intros s. split.
    + destruct (keychain st !! public_key pr) as [sk|]; [|discriminate].
      destruct (BLSPrivateKey_bool sk) eqn:Hb; [|discriminate].
      intros [= <-]. by exists sk.
    + intros (sk & -> & -> & ->). done.
  - intros sk -> ->. done.
Qed.

(** X8: no method removes a key: the keys a Keychain holds are still there
    after any sequence of method calls. *)
Theorem keys_never_removed ops st :
  dom (keychain st) ⊆ dom (keychain (run_operations ops st)).
Proof.
  revert st. induction ops as [|op ops IH]; intros st; simpl; [done|].
  etrans; [|apply IH].
  destruct op as [secret_exponents|pr|solution]; simpl.
  - rewrite add_secret_exponents_run. simpl. rewrite stored_dom.
    apply union_subseteq_l.
  - by rewrite sign_keychain.
  - by rewrite signature_for_solution_keychain.
Qed.

(** X9: a Keychain created empty and filled by one call of
    [add_secret_exponents] signs for exactly the public keys that the
    exponents derive. *)
Theorem new_keychain_signs_derived_keys secret_exponents pr :
  private_keys_truthy ->
  (exists s,
     fst (sign pr
            (snd (add_secret_exponents secret_exponents
                    (new PublicKey BLSPrivateKey MessageHash BLSSignature
                       Solution Conditions ConditionsDict)))) = Returned s)
  <-> public_key pr ∈ derived_public_keys secret_exponents.
Proof.
  intros Htruthy. rewrite add_secret_exponents_run, sign_run. simpl.
  split.
  - intros [s Hs].
    destruct (decide (public_key pr ∈ derived_public_keys secret_exponents))
      as [Hin|Hout]; [done|].
    rewrite stored_lookup_other, lookup_empty in Hs by done. discriminate.
  - intros Hin.
    destruct (stored_lookup_derived ∅ secret_exponents _ Hin)
      as (e & _ & _ & ->).
    rewrite Htruthy. by eexists.
Qed.

End KeychainProperties.

(** * Properties that rest on the collaborators as the spec describes them *)

Section SpecifiedCollaborators.

Context {PublicKey : Type} `{Countable PublicKey}.
Context {BLSPrivateKey MessageHash BLSSignature : Type}.
Context {Solution Conditions ConditionsDict : Type}.

Variable BLSPrivateKey_sign : BLSPrivateKey -> MessageHash -> BLSSignature.
Variable BLSPrivateKey_bool : BLSPrivateKey -> bool.
Variable PublicKey_str : PublicKey -> string.
Variable BLSSignature_aggregate : list BLSSignature -> BLSSignature.
Variable conditions_for_solution : Solution -> outcome Conditions.
Variable conditions_by_opcode : Conditions -> outcome ConditionsDict.
Variable hash_key_pairs_for_conditions_dict :
  ConditionsDict -> outcome (list (aggsig_pair PublicKey MessageHash)).

(** The scheme's group operation and identity value, and the decoder of a
    solution's output. *)
Variable combine : BLSSignature -> BLSSignature -> BLSSignature.
Variable identity : BLSSignature.
Variable decode : Solution -> option Conditions.

Local Abbreviation state :=
  (state PublicKey BLSPrivateKey MessageHash BLSSignature
     Solution Conditions ConditionsDict).
Local Abbreviation sign :=
  (sign (Solution := Solution) (Conditions := Conditions)
     (ConditionsDict := ConditionsDict)
     BLSPrivateKey_sign BLSPrivateKey_bool PublicKey_str).
Local Abbreviation private_keys_truthy :=
  (private_keys_truthy BLSPrivateKey_bool).

(** [signature_for_solution] with [BLSSignature.aggregate] as specified. *)
Local Abbreviation signature_for_solution_aggregating :=
  (signature_for_solution BLSPrivateKey_sign BLSPrivateKey_bool
     PublicKey_str (aggregate combine identity) conditions_for_solution
     conditions_by_opcode hash_key_pairs_for_conditions_dict).

(** [signature_for_solution] with [conditions_for_solution] as
    specified. *)
Local Abbreviation signature_for_solution_decoding :=
  (signature_for_solution BLSPrivateKey_sign BLSPrivateKey_bool
     PublicKey_str BLSSignature_aggregate
     (decode_conditions_for_solution decode)
     conditions_by_opcode hash_key_pairs_for_conditions_dict).

Implicit Types (st : state) (pr : aggsig_pair PublicKey MessageHash).

(** ** Aggregation does not depend on the order *)

Lemma foldl_combine_permutation (l l' : list BLSSignature) a :
  Comm (=) combine -> Assoc (=) combine ->
  l ≡ₚ l' -> foldl combine a l = foldl combine a l'.
Proof.
  intros Hcomm Hassoc Hperm. revert a.
  induction Hperm as [|x l l' _ IH|x y l|l l' l'' _ IH _ IH']; intros a.
  - done.
  - simpl. apply IH.
  - simpl. f_equal.
    rewrite <- !(assoc_L combine). f_equal. apply (comm_L combine).
  - by rewrite IH.
Qed.

Lemma aggregate_permutation (l l' : list BLSSignature) :
  Comm (=) combine -> Assoc (=) combine ->
  l ≡ₚ l' -> aggregate combine identity l = aggregate combine identity l'.
Proof.
  intros Hcomm Hassoc Hperm.
  induction Hperm as [|x l l' Hperm _|x y l|l l' l'' _ IH _ IH'].
  - done.
  - simpl. by apply foldl_combine_permutation.
  - simpl. f_equal. apply (comm_L combine).
  - by rewrite IH.
Qed.

(** ** The claims *)

(** C5: when no obligation is derived for the solution,
    [signature_for_solution] returns, and what it returns is the identity
    value of the scheme: the aggregate of no signature. *)
Theorem signature_for_solution_no_obligation st solution conditions
    conditions_dict :
  conditions_for_solution solution = Returned conditions ->
  conditions_by_opcode conditions = Returned conditions_dict ->
  hash_key_pairs_for_conditions_dict conditions_dict = Returned [] ->
  signature_for_solution_aggregating solution st =
    (Returned identity,
     State (keychain st)
       (calls st ++
        [CallConditionsForSolution solution;
         CallConditionsByOpcode conditions;
         CallHashKeyPairs conditions_dict;
         CallAggregate []])).
Proof.
  intros Hc Hd Hp.
  rewrite (signature_for_solution_run _ _ _ _ _ _ _ _ _ _ _ _ Hc Hd Hp).
  simpl. by rewrite <- app_assoc.
Qed.

(** C6: for two solutions whose derived obligation lists are permutations
    of one another, all of whose public keys the Keychain holds,
    [signature_for_solution] returns the same aggregate, the combination
    being commutative and associative. *)
Theorem signature_for_solution_permutation st solution solution'
    conditions conditions' conditions_dict conditions_dict' pairs pairs' :
  Comm (=) combine -> Assoc (=) combine ->
  private_keys_truthy ->
  conditions_for_solution solution = Returned conditions ->
  conditions_by_opcode conditions = Returned conditions_dict ->
  hash_key_pairs_for_conditions_dict conditions_dict = Returned pairs ->
  conditions_for_solution solution' = Returned conditions' ->
  conditions_by_opcode conditions' = Returned conditions_dict' ->
  hash_key_pairs_for_conditions_dict conditions_dict' = Returned pairs' ->
  pairs ≡ₚ pairs' ->
  Forall (fun pr => is_Some (keychain st !! public_key pr)) pairs ->
  exists aggsig,
    fst (signature_for_solution_aggregating solution st) = Returned aggsig /\
    fst (signature_for_solution_aggregating solution' st) = Returned aggsig.
Proof.
  intros Hcomm Hassoc Htruthy Hc Hd Hp Hc' Hd' Hp' Hperm Hall.
  destruct (present_keys BLSPrivateKey_sign _ _ Hall) as [sigs Hsigs].
  destruct (Permutation_Forall2 Hperm Hsigs) as (sigs' & Hperm' & Hsigs').
  exists (aggregate combine identity sigs).
  rewrite (signature_for_solution_present _ _ _ _ _ _ _ _ _ _ _ _ _
             Htruthy Hc Hd Hp Hsigs).
  rewrite (signature_for_solution_present _ _ _ _ _ _ _ _ _ _ _ _ _
             Htruthy Hc' Hd' Hp' Hsigs').
  simpl. split; [done|]. f_equal. symmetry.
  by apply aggregate_permutation.
Qed.

(** C7: when exactly one obligation is derived for the solution and the
    Keychain holds its public key, [signature_for_solution] returns the
    signature that [sign] returns for that obligation. *)
Theorem signature_for_solution_single st solution conditions
    conditions_dict pr sk :
  private_keys_truthy ->
  conditions_for_solution solution = Returned conditions ->
  conditions_by_opcode conditions = Returned conditions_dict ->
  hash_key_pairs_for_conditions_dict conditions_dict = Returned [pr] ->
  keychain st !! public_key pr = Some sk ->
  fst (sign pr st) = Returned (BLSPrivateKey_sign sk (message_hash pr)) /\
  fst (signature_for_solution_aggregating solution st) = fst (sign pr st).
Proof.
  intros Htruthy Hc Hd Hp Hsk.
  rewrite sign_run, Hsk, Htruthy. split; [done|].
  rewrite (signature_for_solution_present _ _ _ _ _ _ _ _ _ _ _ _
             [BLSPrivateKey_sign sk (message_hash pr)] Htruthy Hc Hd Hp).
  - done.
  - constructor; [|constructor].
    unfold signature_of. by rewrite Hsk.
Qed.

(** C8: when the output of the solution does not decode,
    [signature_for_solution] raises [ConditionParseError] right after the
    call of [conditions_for_solution]: no obligation has been derived and
    [sign] has not been called. *)
Theorem signature_for_solution_parse_error st solution :
  decode solution = None ->
  signature_for_solution_decoding solution st =
    (Raised ConditionParseError,
     State (keychain st) (calls st ++ [CallConditionsForSolution solution])).
Proof.
  intros Hdecode. apply signature_for_solution_raises_first.
  unfold decode_conditions_for_solution. by rewrite Hdecode.
Qed.

End SpecifiedCollaborators.

(** * The properties on the small instance *)

Lemma Toy_combine_comm : Comm (=) Toy.combine.
Proof. intros a b. unfold Toy.combine. by rewrite Z.add_comm. Qed.

Lemma Toy_combine_assoc : Assoc (=) Toy.combine.
Proof.
  intros a b c. unfold Toy.combine.
  by rewrite Zplus_mod_idemp_r, Zplus_mod_idemp_l, Z.add_assoc.
Qed.

Lemma signature_for_solution_unknown_key_witness :
  exists pre pr post,
    [AggsigPair 9 4; AggsigPair 3 6] = pre ++ pr :: post /\
    Forall (fun q => is_Some (keychain Toy.two_keys !! public_key q)) pre /\
    keychain Toy.two_keys !! public_key pr = None /\
    fst (Toy.sign_pair pr Toy.two_keys) = Raised (unknown_pubkey Toy.str pr) /\
    fst (Toy.signature Toy.with_unknown Toy.two_keys) =
      Raised (unknown_pubkey Toy.str pr) /\
    keychain (snd (Toy.signature Toy.with_unknown Toy.two_keys)) =
      keychain Toy.two_keys /\
    calls (snd (Toy.signature Toy.with_unknown Toy.two_keys)) =
      calls Toy.two_keys ++
      [CallConditionsForSolution Toy.with_unknown;
       CallConditionsByOpcode [(9, 4); (3, 6)];
       CallHashKeyPairs [(9, 4); (3, 6)]] ++
      (CallSign <$> pre ++ [pr]).
Proof.
  apply (signature_for_solution_unknown_key
           Toy.sign_hash Toy.truth Toy.str
           (aggregate Toy.combine Toy.identity)
           (decode_conditions_for_solution Toy.decode)
           Toy.by_opcode Toy.hash_key_pairs
           Toy.two_keys Toy.with_unknown [(9, 4); (3, 6)] [(9, 4); (3, 6)]
           [AggsigPair 9 4; AggsigPair 3 6]).
  - intros sk. reflexivity.
  - reflexivity.
  - reflexivity.
  - reflexivity.
  - apply Exists_cons_tl, Exists_cons_hd. vm_compute. reflexivity.
Defined.

Lemma sign_unknown_or_signature_witness :
  (keychain Toy.two_keys !! 9 = None ->
   fst (Toy.sign_pair (AggsigPair 9 4) Toy.two_keys) =
     Raised (ValueError ("unknown pubkey " +:+ Toy.str 9))
   /\ keychain (snd (Toy.sign_pair (AggsigPair 9 4) Toy.two_keys)) =
       keychain Toy.two_keys) /\
  (forall sk,
     keychain Toy.two_keys !! 9 = Some sk ->
     fst (Toy.sign_pair (AggsigPair 9 4) Toy.two_keys) =
       Returned (Toy.sign_hash sk 4)) /\
  (forall st' : Toy.st,
     keychain st' = keychain Toy.two_keys ->
     fst (Toy.sign_pair (AggsigPair 9 4) st') =
       fst (Toy.sign_pair (AggsigPair 9 4) Toy.two_keys)).
Proof.
  apply (sign_unknown_or_signature Toy.sign_hash Toy.truth Toy.str
           Toy.two_keys (AggsigPair 9 4)).
  intros sk. reflexivity.
Defined.

Lemma signature_for_solution_in_order_witness :
  exists signatures,
    Forall2
      (fun pr s =>
         signature_of Toy.sign_hash (keychain Toy.two_keys) pr = Some s)
      [AggsigPair 9 4; AggsigPair 13 6] signatures /\
    Toy.signature Toy.both Toy.two_keys =
      (Returned (aggregate Toy.combine Toy.identity signatures),
       State (keychain Toy.two_keys)
         (calls Toy.two_keys ++
          [CallConditionsForSolution Toy.both;
           CallConditionsByOpcode [(9, 4); (13, 6)];
           CallHashKeyPairs [(9, 4); (13, 6)]] ++
          (CallSign <$> [AggsigPair 9 4; AggsigPair 13 6]) ++
          [CallAggregate signatures])).
Proof.
  apply (signature_for_solution_in_order
           Toy.sign_hash Toy.truth Toy.str
           (aggregate Toy.combine Toy.identity)
           (decode_conditions_for_solution Toy.decode)
           Toy.by_opcode Toy.hash_key_pairs
           Toy.two_keys Toy.both [(9, 4); (13, 6)] [(9, 4); (13, 6)]
           [AggsigPair 9 4; AggsigPair 13 6]).
  - intros sk. reflexivity.
  - reflexivity.
  - reflexivity.
  - reflexivity.
  - repeat constructor; vm_compute; eauto.
Defined.

Lemma signature_for_solution_no_obligation_witness :
  Toy.signature Toy.none Toy.two_keys =
    (Returned Toy.identity,
     State (keychain Toy.two_keys)
       (calls Toy.two_keys ++
        [CallConditionsForSolution Toy.none;
         CallConditionsByOpcode [];
         CallHashKeyPairs [];
         CallAggregate []])).
Proof.
  apply (signature_for_solution_no_obligation
           Toy.sign_hash Toy.truth Toy.str
           (decode_conditions_for_solution Toy.decode)
           Toy.by_opcode Toy.hash_key_pairs Toy.combine Toy.identity
           Toy.two_keys Toy.none [] []).
  - reflexivity.
  - reflexivity.
  - reflexivity.
Defined.

Lemma signature_for_solution_permutation_witness :
  exists aggsig,
    fst (Toy.signature Toy.both Toy.two_keys) = Returned aggsig /\
    fst (Toy.signature Toy.both_swapped Toy.two_keys) = Returned aggsig.
Proof.
  apply (signature_for_solution_permutation
           Toy.sign_hash Toy.truth Toy.str
           (decode_conditions_for_solution Toy.decode)
           Toy.by_opcode Toy.hash_key_pairs Toy.combine Toy.identity
           Toy.two_keys Toy.both Toy.both_swapped
           [(9, 4); (13, 6)] [(13, 6); (9, 4)]
           [(9, 4); (13, 6)] [(13, 6); (9, 4)]
           [AggsigPair 9 4; AggsigPair 13 6]
           [AggsigPair 13 6; AggsigPair 9 4]).
  - exact Toy_combine_comm.
  - exact Toy_combine_assoc.
  - intros sk. reflexivity.
  - reflexivity.
  - reflexivity.
  - reflexivity.
  - reflexivity.
  - reflexivity.
  - reflexivity.
  - apply perm_swap.
  - repeat constructor; vm_compute; eauto.
Defined.

Lemma signature_for_solution_single_witness :
  fst (Toy.sign_pair (AggsigPair 9 4) Toy.one_key) =
    Returned (Toy.sign_hash 5 4) /\
  fst (Toy.signature Toy.single Toy.one_key) =
    fst (Toy.sign_pair (AggsigPair 9 4) Toy.one_key).
Proof.
  apply (signature_for_solution_single
           Toy.sign_hash Toy.truth Toy.str
           (decode_conditions_for_solution Toy.decode)
           Toy.by_opcode Toy.hash_key_pairs Toy.combine Toy.identity
           Toy.one_key Toy.single [(9, 4)] [(9, 4)] (AggsigPair 9 4) 5).
  - intros sk. reflexivity.
  - reflexivity.
  - reflexivity.
  - reflexivity.
  - vm_compute. reflexivity.
Defined.

Lemma signature_for_solution_parse_error_witness :
  Toy.signature Toy.malformed Toy.two_keys =
    (Raised ConditionParseError,
     State (keychain Toy.two_keys)
       (calls Toy.two_keys ++ [CallConditionsForSolution Toy.malformed])).
Proof.
  apply (signature_for_solution_parse_error
           Toy.sign_hash Toy.truth Toy.str
           (aggregate Toy.combine Toy.identity)
           Toy.by_opcode Toy.hash_key_pairs Toy.decode
           Toy.two_keys Toy.malformed).
  reflexivity.
Defined.

(** * Properties of the node fixtures *)

Section ConstantsAndConfiguration.

Import SetupNodes.

Implicit Types (constants dic config : gmap string value).
Implicit Types (keys : list string) (k : string) (token : list Byte.byte).

(** ** The constants of a test *)

(** The loop over keys that [dic] all holds returns, with the value of
    [dic] at each of the keys and the former value elsewhere. *)
Lemma override_each_lookup dic keys constants :
  Forall (fun k => is_Some (dic !! k)) keys ->
  exists copy,
    override_each dic keys constants = Returned copy /\
    forall k,
      copy !! k = if decide (k ∈ keys) then dic !! k else constants !! k.
Proof.
  intros Hkeys. revert constants.
  induction Hkeys as [|k0 keys [v Hv] _ IH]; intros constants.
  - exists constants. split; [done|]. intros k.
    destruct (decide (k ∈ [])) as [Hin|_]; [|done].
    by apply elem_of_nil in Hin.
  - simpl. unfold getitem. rewrite Hv.
    destruct (IH (<[k0 := v]> constants)) as (copy & -> & Hcopy).
    exists copy. split; [done|]. intros k. rewrite Hcopy.
    destruct (decide (k ∈ keys)) as [Hin|Hout].
    + rewrite decide_True; [done|]. by apply elem_of_cons; right.
    + destruct (decide (k = k0)) as [->|Hne].
      * rewrite decide_True by (by apply elem_of_cons; left).
        by rewrite lookup_insert_eq.
      * rewrite decide_False.
        { by rewrite lookup_insert_ne. }
        intros [?|?]%elem_of_cons; done.
Qed.

(** X10: with [keys] the keys of [dic], in whatever order, the constants a
    fixture works with are the entries of [dic] and, for every other key,
    the entry of [test_constants]; no [KeyError] is raised. *)
Theorem overridden_constants_union constants dic keys :
  (forall k, k ∈ keys <-> is_Some (dic !! k)) ->
  overridden_constants constants dic keys = Returned (dic ∪ constants).
Proof.
  intros Hkeys. unfold overridden_constants.
  destruct (override_each_lookup dic keys constants) as (copy & -> & Hcopy).
  { apply Forall_forall. intros k Hk. by apply Hkeys. }
  f_equal. apply map_eq. intros k. rewrite Hcopy.
  destruct (decide (k ∈ keys)) as [Hin|Hout].
  - apply Hkeys in Hin as [v Hv]. rewrite Hv. symmetry.
    by apply lookup_union_Some_l.
  - assert (Hnone : dic !! k = None).
    { apply eq_None_not_Some. intros Hsome. by apply Hout, Hkeys. }
    symmetry. by apply lookup_union_r.
Qed.

(** X11: unless [dic] has an entry for it, the genesis block a fixture
    works with is the one that was created, when the module was loaded,
    from the constants of the literal: overriding other constants does not
    create it anew. *)
Theorem genesis_block_of_the_defaults create_genesis_block dic keys :
  (forall k, k ∈ keys <-> is_Some (dic !! k)) ->
  dic !! "GENESIS_BLOCK" = None ->
  exists copy,
    overridden_constants (test_constants create_genesis_block) dic keys
    = Returned copy /\
    copy !! "GENESIS_BLOCK" =
      Some
        (VBytes
           (create_genesis_block test_constants_literal zero_challenge
              zero_seed)) /\
    test_constants_literal !! "GENESIS_BLOCK" = None.
Proof.
  intros Hkeys Hnone. unfold overridden_constants.
  destruct (override_each_lookup dic keys
              (test_constants create_genesis_block)) as (copy & -> & Hcopy).
  { apply Forall_forall. intros k Hk. by apply Hkeys. }
  exists copy. split; [done|]. split; [|done].
  rewrite Hcopy, decide_False.
  - unfold test_constants. apply lookup_insert_eq.
  - intros Hin. apply Hkeys in Hin as [v Hv]. congruence.
Qed.

(** ** The database of a wallet *)

Lemma string_length_app (s1 s2 : string) :
  String.length (s1 +:+ s2) = (String.length s1 + String.length s2)%nat.
Proof. induction s1 as [|a s1 IH]; simpl; [done|]. by rewrite IH. Qed.

Lemma hex_length (bs : list Byte.byte) :
  String.length (hex bs) = (2 * length bs)%nat.
Proof. induction bs as [|b bs IH]; simpl; [done|]. rewrite IH. lia. Qed.

Lemma unhex_prefix_hex_byte b rest :
  unhex_prefix (hex_byte b rest) = b :: unhex_prefix rest.
Proof. destruct b; reflexivity. Qed.

(** The bytes can be read back from their digits, whatever follows that is
    not a digit. *)
Lemma unhex_prefix_hex (bs : list Byte.byte) :
  unhex_prefix (hex bs +:+ ".db") = bs.
Proof.
  induction bs as [|b bs IH]; [done|].
  change (hex (b :: bs) +:+ ".db") with (hex_byte b (hex bs +:+ ".db")).
  by rewrite unhex_prefix_hex_byte, IH.
Qed.

(** X12: different tokens give different database paths, and the path of a
    token of 32 bytes has 81 characters. *)
Theorem db_path_of_token :
  (forall token token', db_path token = db_path token' -> token = token') /\
  (forall token,
     length token = 32%nat -> String.length (db_path token) = 81%nat).
Proof.
  split.
  - intros token token' Hpath. unfold db_path in Hpath.
    apply (inj (String.app "test-wallet-db")) in Hpath.
    by rewrite <- (unhex_prefix_hex token), Hpath, unhex_prefix_hex.
  - intros token Htoken. unfold db_path.
    by rewrite !string_length_app, hex_length, Htoken.
Qed.

(** X13: the configuration of a wallet node is computed without an error;
    its database path is the path of the token; its starting height is the
    one of [dic] if [dic] has one and the configured one otherwise; every
    other entry is as configured. *)
Theorem wallet_config_entries config dic token :
  exists config',
    wallet_config config dic token = Returned config' /\
    config' !! "database_path" = Some (VStr (db_path token)) /\
    config' !! "starting_height" =
      (match dic !! "starting_height" with
       | Some v => Some v
       | None => config !! "starting_height"
       end) /\
    (forall k,
       k <> "database_path" -> k <> "starting_height" ->
       config' !! k = config !! k).
Proof.
  unfold wallet_config, getitem.
  destruct (dic !! "starting_height") as [v|] eqn:Hv.
  - rewrite bool_decide_eq_true_2 by done.
    eexists. split; [done|]. split; [apply lookup_insert_eq|]. split.
    + rewrite lookup_insert_ne by done. apply lookup_insert_eq.
    + intros k Hk1 Hk2. by rewrite !lookup_insert_ne.
  - rewrite bool_decide_eq_false_2 by (by intros [? ?]).
    eexists. split; [done|]. split; [apply lookup_insert_eq|]. split.
    + by rewrite lookup_insert_ne.
    + intros k Hk1 Hk2. by rewrite lookup_insert_ne.
Qed.

(** ** The introducer of a full node *)

Lemma setitem_in_dict config k k' v inner :
  config !! k = Some (VDict inner) ->
  setitem_in config k k' v
  = Returned (<[k := VDict (<[k' := v]> inner)]> config).
Proof. intros Hk. unfold setitem_in, getitem. by rewrite Hk. Qed.

(** X14: without an introducer port, the configuration of a full node is
    the loaded one, whatever it holds.  With one, the dictionary at
    ["introducer_peer"] gets the host 127.0.0.1 and that port and keeps its
    other entries, and the other entries of the configuration stay; a
    configuration without ["introducer_peer"] raises [KeyError], and one
    that holds something other than a dictionary there raises
    [TypeError]. *)
Theorem full_node_config_introducer config introducer_port :
  (introducer_port = VNone ->
   full_node_config config introducer_port = Returned config) /\
  (introducer_port <> VNone ->
   (config !! "introducer_peer" = None ->
    full_node_config config introducer_port
    = Raised (KeyError "introducer_peer")) /\
   (forall peer,
      config !! "introducer_peer" = Some (VDict peer) ->
      exists config' peer',
        full_node_config config introducer_port = Returned config' /\
        config' !! "introducer_peer" = Some (VDict peer') /\
        peer' !! "host" = Some (VStr "127.0.0.1") /\
        peer' !! "port" = Some introducer_port /\
        (forall k, k <> "host" -> k <> "port" -> peer' !! k = peer !! k) /\
        (forall k, k <> "introducer_peer" -> config' !! k = config !! k)) /\
   (forall v,
      config !! "introducer_peer" = Some v ->
      (forall peer, v <> VDict peer) ->
      full_node_config config introducer_port
      = Raised (no_item_assignment v))).
Proof.
  split; [by intros ->|]. intros Hport.
  assert (Hrun : full_node_config config introducer_port =
    match setitem_in config "introducer_peer" "host" (VStr "127.0.0.1") with
    | Returned config' =>
        setitem_in config' "introducer_peer" "port" introducer_port
    | Raised e => Raised e
    end) by (by destruct introducer_port).
  rewrite Hrun. clear Hrun. split; [|split].
  - intros Hnone. unfold setitem_in at 1, getitem. by rewrite Hnone.
  - intros peer Hpeer.
    rewrite (setitem_in_dict _ _ _ _ _ Hpeer).
    erewrite setitem_in_dict by apply lookup_insert_eq.
    eexists _, _. split; [done|].
    split; [apply lookup_insert_eq|].
    split; [by rewrite lookup_insert_ne, lookup_insert_eq|].
    split; [apply lookup_insert_eq|]. split.
    + intros k Hk1 Hk2. by rewrite !lookup_insert_ne.
    + intros k Hk. by rewrite !lookup_insert_ne.
  - intros v Hv Hnodict. unfold setitem_in at 1, getitem. rewrite Hv.
    destruct v; try done. by destruct (Hnodict d).
Qed.

End ConstantsAndConfiguration.

Section ComposedFixtures.

Import SetupNodes.

Context {World Yielded : Type}.

Implicit Types (f : fixture World Yielded) (w : World).
Implicit Types (fixtures pre post : list (fixture World Yielded)).
Implicit Types (finished : generators World Yielded).

Lemma leaving_generator_escapes e :
  is_StopAsyncIteration (leaving_generator e) = false.
Proof.
  unfold leaving_generator.
  destruct (is_StopAsyncIteration e) eqn:He; [done|].
  destruct (is_StopIteration e); [done|exact He].
Qed.

Lemma start_each_sets_up finished fixtures yields w :
  Forall sets_up fixtures ->
  exists new,
    length new = length fixtures /\
    start_each finished (standing Created fixtures) yields w =
      (Returned (yields ++ new),
       (finished ++ standing Suspended fixtures,
        world_after_setups fixtures w)).
Proof.
  intros Hall. revert finished yields w.
  induction Hall as [|f fixtures Hf _ IH]; intros finished yields w.
  - exists []. simpl. by rewrite !app_nil_r.
  - destruct (Hf w) as [y Hy]. simpl.
    destruct (before_yield f w) as [o w'] eqn:Hrun. simpl in Hy. subst o.
    destruct (IH (finished ++ [(f, Suspended)]) (yields ++ [y]) w')
      as (new & Hlen & ->).
    exists (y :: new). split; [simpl; by rewrite Hlen|].
    by rewrite <- !app_assoc.
Qed.

Lemma finish_each_tears_down finished fixtures w :
  Forall tears_down fixtures ->
  finish_each finished (standing Suspended fixtures) w =
    (Returned tt,
     (finished ++ standing Finished fixtures,
      world_after_teardowns fixtures w)).
Proof.
  intros Hall. revert finished w.
  induction Hall as [|f fixtures Hf _ IH]; intros finished w.
  - simpl. by rewrite app_nil_r.
  - specialize (Hf w). simpl.
    destruct (after_yield f w) as [o w'] eqn:Hrun. simpl in Hf. subst o.
    simpl. rewrite IH.
    by rewrite <- !app_assoc.
Qed.

(** X15: when no part of any fixture raises, a composed fixture starts its
    fixtures in the order of [node_iters] and yields one value for each;
    after its [yield], the loop runs the second part of each fixture once,
    in that same order, the first one set up being the first one torn down,
    and leaves every generator finished. *)
Theorem fixtures_set_up_and_torn_down fixtures w :
  Forall sets_up fixtures ->
  Forall tears_down fixtures ->
  (exists yields,
     length yields = length fixtures /\
     composed_before fixtures w =
       (Returned yields,
        (standing Suspended fixtures, world_after_setups fixtures w))) /\
  (forall w',
     finish_all (standing Suspended fixtures) w' =
       (Returned tt,
        (standing Finished fixtures, world_after_teardowns fixtures w'))).
Proof.
  intros Hsetup Hteardown. split.
  - destruct (start_each_sets_up [] fixtures [] w Hsetup)
      as (yields & Hlen & Hrun).
    exists yields. split; [done|]. exact Hrun.
  - intros w'. unfold finish_all.
    by rewrite finish_each_tears_down.
Qed.

Lemma finish_each_raises finished pre f post w e :
  Forall tears_down pre ->
  fst (after_yield f (world_after_teardowns pre w)) = Raised e ->
  finish_each finished (standing Suspended (pre ++ f :: post)) w =
    (Raised (leaving_generator e),
     (finished ++ standing Finished pre ++
        (f, Finished) :: standing Suspended post,
      snd (after_yield f (world_after_teardowns pre w)))).
Proof.
  intros Hpre. revert finished w.
  induction Hpre as [|g pre Hg _ IH]; intros finished w Hf.
  - simpl in *.
    destruct (after_yield f w) as [o w'] eqn:Hrun. simpl in Hf. subst o.
    simpl. by rewrite leaving_generator_escapes.
  - specialize (Hg w). simpl in *.
    destruct (after_yield g w) as [o w'] eqn:Hrun. simpl in Hg. subst o.
    simpl in *. rewrite (IH _ _ Hf). by rewrite <- !app_assoc.
Qed.

Lemma start_each_raises finished yields pre f post w e :
  Forall sets_up pre ->
  fst (before_yield f (world_after_setups pre w)) = Raised e ->
  start_each finished (standing Created (pre ++ f :: post)) yields w =
    (Raised (leaving_generator e),
     (finished ++ standing Suspended pre ++
        (f, Finished) :: standing Created post,
      snd (before_yield f (world_after_setups pre w)))).
Proof.
  intros Hpre. revert finished yields w.
  induction Hpre as [|g pre Hg _ IH]; intros finished yields w Hf.
  - simpl in *.
    destruct (before_yield f w) as [o w'] eqn:Hrun. simpl in Hf. subst o.
    done.
  - destruct (Hg w) as [y Hy]. simpl in *.
    destruct (before_yield g w) as [o w'] eqn:Hrun. simpl in Hy. subst o.
    simpl in *. rewrite (IH _ _ _ Hf). by rewrite <- !app_assoc.
Qed.

(** X16: when the second part of a fixture raises, the loop lets the
    exception out (as [RuntimeError] if it is [StopAsyncIteration]) and the
    fixtures that come later in [node_iters] stay suspended: their second
    parts are not run. *)
Theorem teardown_error_skips_the_rest pre f post w e :
  Forall tears_down pre ->
  fst (after_yield f (world_after_teardowns pre w)) = Raised e ->
  finish_all (standing Suspended (pre ++ f :: post)) w =
    (Raised (leaving_generator e),
     (standing Finished pre ++ (f, Finished) :: standing Suspended post,
      snd (after_yield f (world_after_teardowns pre w)))).
Proof.
  intros Hpre Hf. unfold finish_all.
  by rewrite (finish_each_raises [] pre f post w e).
Qed.

(** X17: when the first part of a fixture raises, the composed fixture
    raises before its [yield]; the fixtures that come earlier in
    [node_iters] have been set up and stay suspended, their second parts
    not run, and the later ones have not been started. *)
Theorem setup_error_leaves_the_earlier pre f post w e :
  Forall sets_up pre ->
  fst (before_yield f (world_after_setups pre w)) = Raised e ->
  composed_before (pre ++ f :: post) w =
    (Raised (leaving_generator e),
     (standing Suspended pre ++ (f, Finished) :: standing Created post,
      snd (before_yield f (world_after_setups pre w)))).
Proof.
  intros Hpre Hf. unfold composed_before, create, start_all.
  by rewrite (start_each_raises [] [] pre f post w e).
Qed.

End ComposedFixtures.

(** * The further properties on the small instances *)

Lemma add_secret_exponents_any_order_witness :
  Toy.populate [7; 5] Toy.empty = Toy.populate [5; 7] Toy.empty.
Proof.
  apply (add_secret_exponents_any_order
           Toy.from_secret_exponent Toy.public_key_of Toy.empty [5; 7] [7; 5]).
  - apply (bool_decide_unpack _). by vm_compute.
  - apply perm_swap.
Defined.

Lemma sign_after_add_secret_exponents_witness :
  exists e',
    e' ∈ [5; 16] /\
    Toy.public_key_of (Toy.from_secret_exponent e') =
      Toy.public_key_of (Toy.from_secret_exponent 5) /\
    fst (Toy.sign_pair
           (AggsigPair (Toy.public_key_of (Toy.from_secret_exponent 5)) 4)
           (snd (Toy.populate [5; 16] Toy.empty))) =
      Returned (Toy.sign_hash (Toy.from_secret_exponent e') 4).
Proof.
  apply (sign_after_add_secret_exponents
           Toy.from_secret_exponent Toy.public_key_of Toy.sign_hash
           Toy.truth Toy.str Toy.empty [5; 16] 5 4).
  - intros sk. reflexivity.
  - apply elem_of_cons. by left.
Defined.

Lemma sign_under_matching_key_witness :
  exists sk,
    Toy.public_key_of sk = 9 /\ 9 = Toy.sign_hash sk 4.
Proof.
  apply (sign_under_matching_key
           Toy.from_secret_exponent Toy.public_key_of Toy.sign_hash
           Toy.truth Toy.str (aggregate Toy.combine Toy.identity)
           (decode_conditions_for_solution Toy.decode)
           Toy.by_opcode Toy.hash_key_pairs
           [OpAddSecretExponents [5; 7]; OpSignatureForSolution Toy.both]
           (AggsigPair 9 4) 9).
  vm_compute. reflexivity.
Defined.


Lemma new_keychain_signs_derived_keys_witness :
  (exists s,
     fst (Toy.sign_pair (AggsigPair 9 4)
            (snd (Toy.populate [5; 7] (new Z Z Z Z _ _ _)))) = Returned s)
  <-> 9 ∈ derived_public_keys Toy.from_secret_exponent Toy.public_key_of
            [5; 7].
Proof.
  apply (new_keychain_signs_derived_keys
           Toy.from_secret_exponent Toy.public_key_of Toy.sign_hash
           Toy.truth Toy.str [5; 7] (AggsigPair 9 4)).
  intros sk. reflexivity.
Defined.

Lemma overridden_constants_union_witness :
  SetupNodes.overridden_constants SetupNodes.test_constants_literal
    {[ "TX_PER_SEC" := SetupNodes.VInt 7 ]} ["TX_PER_SEC"]
  = Returned
      ({[ "TX_PER_SEC" := SetupNodes.VInt 7 ]}
         ∪ SetupNodes.test_constants_literal).
Proof.
  apply (overridden_constants_union SetupNodes.test_constants_literal
           {[ "TX_PER_SEC" := SetupNodes.VInt 7 ]} ["TX_PER_SEC"]).
  intros k. rewrite list_elem_of_singleton.
  rewrite <- elem_of_dom, dom_singleton_L. set_solver.
Defined.

Lemma genesis_block_of_the_defaults_witness :
  exists copy,
    SetupNodes.overridden_constants
      (SetupNodes.test_constants (fun _ challenge seed => challenge ++ seed))
      {[ "TX_PER_SEC" := SetupNodes.VInt 7 ]} ["TX_PER_SEC"]
    = Returned copy /\
    copy !! "GENESIS_BLOCK" =
      Some
        (SetupNodes.VBytes
           (SetupNodes.zero_challenge ++ SetupNodes.zero_seed)) /\
    SetupNodes.test_constants_literal !! "GENESIS_BLOCK" = None.
Proof.
  apply (genesis_block_of_the_defaults
           (fun _ challenge seed => challenge ++ seed)
           {[ "TX_PER_SEC" := SetupNodes.VInt 7 ]} ["TX_PER_SEC"]).
  - intros k. rewrite list_elem_of_singleton.
    rewrite <- elem_of_dom, dom_singleton_L. set_solver.
  - reflexivity.
Defined.

Lemma fixtures_set_up_and_torn_down_witness :
  (exists yields,
     length yields = 2%nat /\
     SetupNodes.composed_before
       [ToyNodes.node "a" 21234; ToyNodes.node "b" 21235] [] =
       (Returned yields,
        (SetupNodes.standing SetupNodes.Suspended
           [ToyNodes.node "a" 21234; ToyNodes.node "b" 21235],
         ["start a"; "start b"]))) /\
  (forall w',
     SetupNodes.finish_all
       (SetupNodes.standing SetupNodes.Suspended
          [ToyNodes.node "a" 21234; ToyNodes.node "b" 21235]) w' =
       (Returned tt,
        (SetupNodes.standing SetupNodes.Finished
           [ToyNodes.node "a" 21234; ToyNodes.node "b" 21235],
         SetupNodes.world_after_teardowns
           [ToyNodes.node "a" 21234; ToyNodes.node "b" 21235] w'))).
Proof.
  apply (fixtures_set_up_and_torn_down
           [ToyNodes.node "a" 21234; ToyNodes.node "b" 21235] []).
  - repeat constructor; intros w; eexists; reflexivity.
  - repeat constructor; intros w; reflexivity.
Defined.

Lemma teardown_error_skips_the_rest_witness :
  SetupNodes.finish_all
    (SetupNodes.standing SetupNodes.Suspended
       ([ToyNodes.node "a" 21234] ++
        ToyNodes.fails_to_stop "b" 21235 :: [ToyNodes.node "c" 21236]))
    ["start a"; "start b"; "start c"] =
    (Raised (Raise "OSError" "b"),
     (SetupNodes.standing SetupNodes.Finished [ToyNodes.node "a" 21234] ++
      (ToyNodes.fails_to_stop "b" 21235, SetupNodes.Finished)
      :: SetupNodes.standing SetupNodes.Suspended [ToyNodes.node "c" 21236],
      ["start a"; "start b"; "start c"; "stop a"])).
Proof.
  apply (teardown_error_skips_the_rest
           [ToyNodes.node "a" 21234] (ToyNodes.fails_to_stop "b" 21235)
           [ToyNodes.node "c" 21236] ["start a"; "start b"; "start c"]
           (Raise "OSError" "b")).
  - repeat constructor; intros w; reflexivity.
  - reflexivity.
Defined.

Lemma setup_error_leaves_the_earlier_witness :
  SetupNodes.composed_before
    ([ToyNodes.node "a" 21234] ++
     ToyNodes.fails_to_start "b" :: [ToyNodes.node "c" 21236]) [] =
    (Raised (Raise "OSError" "b"),
     (SetupNodes.standing SetupNodes.Suspended [ToyNodes.node "a" 21234] ++
      (ToyNodes.fails_to_start "b", SetupNodes.Finished)
      :: SetupNodes.standing SetupNodes.Created [ToyNodes.node "c" 21236],
      ["start a"])).
Proof.
  apply (setup_error_leaves_the_earlier
           [ToyNodes.node "a" 21234] (ToyNodes.fails_to_start "b")
           [ToyNodes.node "c" 21236] [] (Raise "OSError" "b")).
  - repeat constructor; intros w; eexists; reflexivity.
  - reflexivity.
Defined.
